(** * PomodoroTimer: a shallow embedding of src/components/PomodoroTimer.tsx

    The component keeps five [useState] cells and reacts to four stimuli: the
    one-second interval callback and the three button handlers.  Handlers are
    closures over the values of the render in which they were created; a
    setter call does not mutate those values but queues an update that React
    applies, in queue order, when it renders next.  The embedding keeps that
    shape: a handler is a computation in a small effect monad whose trace
    records the queued updates (and the tone) in program order, and React's
    part is the function that folds a trace over the committed cells. *)

From Stdlib Require Import ZArith QArith Bool List Lia.
From Stdlib Require Import Ascii String DecimalString Qabs.
From Stdlib Require PrimFloat FloatOps SpecFloat.
Import ListNotations.

Local Open Scope Z_scope.

(** ** Data model *)

(** [type TimerMode = 'work' | 'shortBreak' | 'longBreak'] *)
Inductive TimerMode : Type := work | shortBreak | longBreak.

Definition TimerMode_eqb (a b : TimerMode) : bool :=
  match a, b with
  | work, work | shortBreak, shortBreak | longBreak, longBreak => true
  | _, _ => false
  end.

Definition WORK_DURATION : Z := 25 * 60.
Definition SHORT_BREAK_DURATION : Z := 5 * 60.
Definition LONG_BREAK_DURATION : Z := 15 * 60.

(** The five [useState] cells of the component, as one render sees them. *)
Record Hooks : Type := mkHooks {
  timeLeft : Z;
  isRunning : bool;
  mode : TimerMode;
  completedSessions : Z;
  totalSessions : Z
}.

(** Values passed to [useState] at mount. *)
Definition initialHooks : Hooks :=
  mkHooks WORK_DURATION false work 0 0.

(** ** Effects *)

(** A queued state update: one constructor per setter. *)
Inductive Update : Type :=
| SetTimeLeft (v : Z)
| SetIsRunning (b : bool)
| SetMode (m : TimerMode)
| SetCompletedSessions (n : Z)
| SetTotalSessions (n : Z).

(** What a handler does to the outside: queue an update or start the
    oscillator at the given frequency (Hz). *)
Inductive Effect : Type :=
| Enqueue (u : Update)
| Tone (frequency : Z).

(** Whether constructing the audio context and driving the oscillator
    works, or raises (no [AudioContext] constructor, device refused). *)
Inductive AudioOutput : Type := AudioAvailable | AudioUnavailable.

(** A JavaScript call either returns a value or throws. *)
Inductive Completion (A : Type) : Type :=
| Normal (a : A)
| Throw.
Arguments Normal {A} a.
Arguments Throw {A}.

(** Computations: given the audio capability, the trace of effects performed
    so far in program order, and how the call completed. *)
Definition Eff (A : Type) : Type := AudioOutput -> list Effect * Completion A.

Definition ret {A : Type} (a : A) : Eff A := fun _ => ([], Normal a).

(** Sequencing; a throw skips the rest, keeping the effects already done. *)
Definition bind {A B : Type} (c : Eff A) (k : A -> Eff B) : Eff B :=
  fun dev =>
    match c dev with
    | (tr, Normal a) =>
        match k a dev with
        | (tr', r) => (tr ++ tr', r)
        end
    | (tr, Throw) => (tr, Throw)
    end.

Declare Scope eff_scope.
Delimit Scope eff_scope with eff.
Notation "c ;; k" := (bind c (fun _ => k))
  (at level 61, right associativity) : eff_scope.
Local Open Scope eff_scope.

Definition enqueue (u : Update) : Eff unit := fun _ => ([Enqueue u], Normal tt).

Definition setTimeLeft (v : Z) : Eff unit := enqueue (SetTimeLeft v).
Definition setIsRunning (b : bool) : Eff unit := enqueue (SetIsRunning b).
Definition setMode (m : TimerMode) : Eff unit := enqueue (SetMode m).
Definition setCompletedSessions (n : Z) : Eff unit :=
  enqueue (SetCompletedSessions n).
Definition setTotalSessions (n : Z) : Eff unit := enqueue (SetTotalSessions n).

(** ** The component's functions *)

(** [playNotificationSound]: builds an audio context, wires an 800 Hz sine
    oscillator through a gain node and starts it.  Nothing in the body
    catches: when the context cannot be built the call throws. *)
Definition playNotificationSound : Eff unit :=
  fun dev =>
    match dev with
    | AudioAvailable => ([Tone 800], Normal tt)
    | AudioUnavailable => ([], Throw)
    end.

(** [handleTimerComplete], closed over [mode] and [completedSessions] of the
    render [s].  JavaScript's [%] takes the sign of the dividend: [Z.rem]. *)
Definition handleTimerComplete (s : Hooks) : Eff unit :=
  setIsRunning false ;;
  playNotificationSound ;;
  match mode s with
  | work =>
      let newCompleted := completedSessions s + 1 in
      setCompletedSessions newCompleted ;;
      setTotalSessions newCompleted ;;
      if Z.rem newCompleted 4 =? 0
      then setMode longBreak ;; setTimeLeft LONG_BREAK_DURATION
      else setMode shortBreak ;; setTimeLeft SHORT_BREAK_DURATION
  | _ =>
      setMode work ;; setTimeLeft WORK_DURATION
  end.

(** The function handed to [setTimeLeft] by the interval callback:
    [(prev) => { if (prev <= 1) { handleTimerComplete(); return 0 }
                 return prev - 1 }]. *)
Definition tickUpdater (s : Hooks) (prev : Z) : Eff Z :=
  if prev <=? 1
  then handleTimerComplete s ;; ret 0
  else ret (prev - 1).

(** [toggleTimer] *)
Definition toggleTimer (s : Hooks) : Eff unit :=
  setIsRunning (negb (isRunning s)).

(** [resetTimer] *)
Definition resetTimer (s : Hooks) : Eff unit :=
  setIsRunning false ;;
  match mode s with
  | work => setTimeLeft WORK_DURATION
  | shortBreak => setTimeLeft SHORT_BREAK_DURATION
  | longBreak => setTimeLeft LONG_BREAK_DURATION
  end.

(** [switchMode] *)
Definition switchMode (s : Hooks) (newMode : TimerMode) : Eff unit :=
  setIsRunning false ;;
  setMode newMode ;;
  match newMode with
  | work => setTimeLeft WORK_DURATION
  | shortBreak => setTimeLeft SHORT_BREAK_DURATION
  | longBreak => setTimeLeft LONG_BREAK_DURATION
  end.

(** [getProgress]: a percentage.  JavaScript numbers are doubles; this is
    the exact value of the expression, over [Q], without rounding.  The
    function as it is evaluated in binary64 is [Binary64.getProgress]. *)
Definition getProgress (s : Hooks) : Q :=
  let totalDuration := WORK_DURATION in
  let totalDuration :=
    if TimerMode_eqb (mode s) shortBreak then SHORT_BREAK_DURATION
    else totalDuration in
  let totalDuration :=
    if TimerMode_eqb (mode s) longBreak then LONG_BREAK_DURATION
    else totalDuration in
  ((inject_Z (totalDuration - timeLeft s) / inject_Z totalDuration)
   * inject_Z 100)%Q.

(** [strokeDashoffset], the length left unfilled on the progress ring, as
    the exact value of the expression over [Q].  The ring's circumference
    ([2 * Math.PI * 120]) is taken as a parameter. *)
Definition strokeDashoffset (circumference : Q) (s : Hooks) : Q :=
  (circumference - (getProgress s / inject_Z 100) * circumference)%Q.

(** ** React's side: applying queued updates *)

Definition applyUpdate (u : Update) (s : Hooks) : Hooks :=
  match u with
  | SetTimeLeft v =>
      mkHooks v (isRunning s) (mode s) (completedSessions s) (totalSessions s)
  | SetIsRunning b =>
      mkHooks (timeLeft s) b (mode s) (completedSessions s) (totalSessions s)
  | SetMode m =>
      mkHooks (timeLeft s) (isRunning s) m (completedSessions s)
        (totalSessions s)
  | SetCompletedSessions n =>
      mkHooks (timeLeft s) (isRunning s) (mode s) n (totalSessions s)
  | SetTotalSessions n =>
      mkHooks (timeLeft s) (isRunning s) (mode s) (completedSessions s) n
  end.

Definition applyEffect (s : Hooks) (e : Effect) : Hooks :=
  match e with
  | Enqueue u => applyUpdate u s
  | Tone _ => s
  end.

(** Updates are applied in the order in which they were queued. *)
Definition commit (tr : list Effect) (s : Hooks) : Hooks :=
  fold_left applyEffect tr s.

(** Number of times the oscillator was started in a trace. *)
Fixpoint tones (tr : list Effect) : nat :=
  match tr with
  | [] => O
  | Tone _ :: tr' => S (tones tr')
  | Enqueue _ :: tr' => tones tr'
  end.

(** Outcome of one stimulus: the next committed render, or an exception
    that escaped the component's code. *)
Inductive Rendered : Type :=
| Committed (s : Hooks)
| Crashed.

(** A button handler runs to its end, then React renders with its queue. *)
Definition runHandler (h : Eff unit) (dev : AudioOutput) (s : Hooks)
  : Rendered :=
  match h dev with
  | (tr, Normal _) => Committed (commit tr s)
  | (_, Throw) => Crashed
  end.

(** [setTimeLeft(f)] with a function: React calls [f] on the pending value
    of the cell while it processes that cell's queue and stores what [f]
    returns.  The setter calls made while [f] runs join the queues behind
    the update that carries [f], so they are applied after [f]'s own
    result: a [setTimeLeft(d)] made inside [f] overrides the value [f]
    returns.  An exception thrown by [f] escapes into React. *)
Definition runUpdater (f : Z -> Eff Z) (dev : AudioOutput) (s : Hooks)
  : Rendered :=
  match f (timeLeft s) dev with
  | (tr, Normal v) => Committed (commit tr (applyUpdate (SetTimeLeft v) s))
  | (_, Throw) => Crashed
  end.

(** The [useEffect] keeps an interval alive exactly while [isRunning] is
    true: it is installed in the [if (isRunning)] branch and cleared in the
    other branch and in the cleanup. *)
Definition intervalActive (s : Hooks) : bool :=
  if isRunning s then true else false.

(** One firing of the interval; with no interval installed nothing fires. *)
Definition intervalTick (dev : AudioOutput) (s : Hooks) : Rendered :=
  if intervalActive s then runUpdater (tickUpdater s) dev s else Committed s.

(** The stimuli the component reacts to. *)
Inductive Action : Type :=
| Tick (dev : AudioOutput)
| ToggleTimer
| ResetTimer
| SwitchMode (newMode : TimerMode).

Definition dispatch (a : Action) (s : Hooks) : Rendered :=
  match a with
  | Tick dev => intervalTick dev s
  | ToggleTimer => runHandler (toggleTimer s) AudioAvailable s
  | ResetTimer => runHandler (resetTimer s) AudioAvailable s
  | SwitchMode m => runHandler (switchMode s m) AudioAvailable s
  end.

(** Running a whole script of stimuli from a render. *)
Fixpoint run (script : list Action) (s : Hooks) : Rendered :=
  match script with
  | [] => Committed s
  | a :: script' =>
      match dispatch a s with
      | Committed s' => run script' s'
      | Crashed => Crashed
      end
  end.

(** Renders the mounted component can reach. *)
Inductive reachable : Hooks -> Prop :=
| reachable_mount : reachable initialHooks
| reachable_step (s s' : Hooks) (a : Action) :
    reachable s -> dispatch a s = Committed s' -> reachable s'.

(** ** The specification's vocabulary *)

(** Fixed duration of a mode, as the specification tabulates it. *)
Definition modeDuration (m : TimerMode) : Z :=
  match m with
  | work => 1500
  | shortBreak => 300
  | longBreak => 900
  end.

(** The specification's progress fraction [(duration - remaining) / duration]. *)
Definition progressFraction (s : Hooks) : Q :=
  (inject_Z (modeDuration (mode s) - timeLeft s)
   / inject_Z (modeDuration (mode s)))%Q.

(** ** The component as a step relation *)

(** The render a completion leads to, read off the handler's branches. *)
Definition afterCompletion (s : Hooks) : Hooks :=
  match mode s with
  | work =>
      let n := completedSessions s + 1 in
      if Z.rem n 4 =? 0
      then mkHooks LONG_BREAK_DURATION false longBreak n n
      else mkHooks SHORT_BREAK_DURATION false shortBreak n n
  | _ =>
      mkHooks WORK_DURATION false work (completedSessions s) (totalSessions s)
  end.

(** What each stimulus does to a committed render, case by case. *)
Inductive transition (s : Hooks) : Action -> Hooks -> Prop :=
| tr_idle (dev : AudioOutput) :
    isRunning s = false ->
    transition s (Tick dev) s
| tr_decrement (dev : AudioOutput) :
    isRunning s = true -> 1 < timeLeft s ->
    transition s (Tick dev)
      (mkHooks (timeLeft s - 1) (isRunning s) (mode s) (completedSessions s)
         (totalSessions s))
| tr_complete :
    isRunning s = true -> timeLeft s <= 1 ->
    transition s (Tick AudioAvailable) (afterCompletion s)
| tr_toggle :
    transition s ToggleTimer
      (mkHooks (timeLeft s) (negb (isRunning s)) (mode s)
         (completedSessions s) (totalSessions s))
| tr_reset :
    transition s ResetTimer
      (mkHooks (modeDuration (mode s)) false (mode s) (completedSessions s)
         (totalSessions s))
| tr_switch (newMode : TimerMode) :
    transition s (SwitchMode newMode)
      (mkHooks (modeDuration newMode) false newMode (completedSessions s)
         (totalSessions s)).

(** ** The specification's transition table and sample renders *)

(** The specification's transition table for a completion taking the
    render [s] to [s']. *)
Definition completionTable (s s' : Hooks) : Prop :=
  match mode s with
  | work =>
      completedSessions s' = completedSessions s + 1 /\
      ((4 | completedSessions s') ->
       mode s' = longBreak /\ timeLeft s' = 900) /\
      (~ (4 | completedSessions s') ->
       mode s' = shortBreak /\ timeLeft s' = 300)
  | shortBreak | longBreak =>
      mode s' = work /\ timeLeft s' = 1500 /\
      completedSessions s' = completedSessions s
  end.

(** Sample renders used to exercise the theorems. *)
Definition lastSecondOfWork : Hooks := mkHooks 1 true work 0 0.
Definition midWork : Hooks := mkHooks 750 true work 2 2.
Definition stalledAtZero : Hooks := mkHooks 0 true shortBreak 1 1.

(** Pressing Start after mount and letting the first Work interval run
    out: 1500 firings of the interval. *)
Definition firstPomodoro : list Action :=
  ToggleTimer :: repeat (Tick AudioAvailable) 1500.

(** ** The interval effect *)

(** The browser's table of live intervals.  Each entry pairs the handle
    returned by [window.setInterval] with the render whose
    [handleTimerComplete] the callback closed over.  Handles are handed
    out in increasing order, starting from a positive number. *)
Record Timers : Type := mkTimers {
  live : list (Z * Hooks);
  nextHandle : Z
}.

Definition setInterval (closure : Hooks) (t : Timers) : Z * Timers :=
  (nextHandle t,
   mkTimers ((nextHandle t, closure) :: live t) (nextHandle t + 1)).

(** Clearing a handle that is not live does nothing. *)
Definition clearInterval (handle : Z) (t : Timers) : Timers :=
  mkTimers (filter (fun e => negb (fst e =? handle)) (live t)) (nextHandle t).

Definition lookupTimer (handle : Z) (t : Timers) : option Hooks :=
  match find (fun e => fst e =? handle) (live t) with
  | Some e => Some (snd e)
  | None => None
  end.

(** The mounted component: its cells, [intervalRef.current]
    ([number | null]) and the page's interval table. *)
Record Mounted : Type := mkMounted {
  hooks : Hooks;
  intervalRef : option Z;
  timers : Timers
}.

(** [if (intervalRef.current) { window.clearInterval(intervalRef.current) }]:
    [null] and [0] are falsy.  The same statement is the effect's [else]
    branch and the body of its cleanup; the ref is read when it runs. *)
Definition clearIfSet (m : Mounted) : Mounted :=
  match intervalRef m with
  | Some h =>
      if negb (h =? 0)
      then mkMounted (hooks m) (intervalRef m) (clearInterval h (timers m))
      else m
  | None => m
  end.

(** The function passed to [useEffect], run for the render [hooks m]. *)
Definition effectBody (m : Mounted) : Mounted :=
  if isRunning (hooks m)
  then
    let (h, t) := setInterval (hooks m) (timers m) in
    mkMounted (hooks m) (Some h) t
  else clearIfSet m.

(** The function the effect returns. *)
Definition effectCleanup (m : Mounted) : Mounted := clearIfSet m.

(** The dependency array [[isRunning, handleTimerComplete]].  The callback
    is memoised on [mode] and [completedSessions] ([playNotificationSound]
    never changes), so it is a new function exactly when one of those two
    differs from the previous render. *)
Definition depsChanged (old new : Hooks) : bool :=
  negb (Bool.eqb (isRunning old) (isRunning new))
  || negb (TimerMode_eqb (mode old) (mode new))
  || negb (completedSessions old =? completedSessions new).

(** React commits the render [s']; when a dependency changed it runs the
    previous effect's cleanup and then the effect again. *)
Definition rerender (m : Mounted) (s' : Hooks) : Mounted :=
  let m' := mkMounted s' (intervalRef m) (timers m) in
  if depsChanged (hooks m) s' then effectBody (effectCleanup m') else m'.

(** First render: [useRef(null)], no interval yet, then the effect. *)
Definition mount : Mounted :=
  effectBody (mkMounted initialHooks None (mkTimers [] 1)).

(** Unmounting runs the cleanup; what is left is the page's table. *)
Definition unmount (m : Mounted) : Timers := timers (effectCleanup m).

(** What can happen to the mounted component. *)
Inductive Event : Type :=
| IntervalFires (handle : Z) (dev : AudioOutput)
| ClickStartPause
| ClickReset
| ClickMode (newMode : TimerMode).

(** The page either still shows the component or has torn it down after
    an exception escaped. *)
Inductive Page : Type :=
| Showing (m : Mounted)
| TornDown (t : Timers).

Definition settle (m : Mounted) (r : Rendered) : Page :=
  match r with
  | Committed s' => Showing (rerender m s')
  | Crashed => TornDown (unmount m)
  end.

(** A firing handle runs the callback registered under it, if any. *)
Definition react (e : Event) (m : Mounted) : Page :=
  match e with
  | IntervalFires h dev =>
      match lookupTimer h (timers m) with
      | Some closure => settle m (runUpdater (tickUpdater closure) dev (hooks m))
      | None => Showing m
      end
  | ClickStartPause =>
      settle m (runHandler (toggleTimer (hooks m)) AudioAvailable (hooks m))
  | ClickReset =>
      settle m (runHandler (resetTimer (hooks m)) AudioAvailable (hooks m))
  | ClickMode newMode =>
      settle m
        (runHandler (switchMode (hooks m) newMode) AudioAvailable (hooks m))
  end.

(** Configurations the mounted component can be in. *)
Inductive mountedReachable : Mounted -> Prop :=
| mounted_first : mountedReachable mount
| mounted_step (m m' : Mounted) (e : Event) :
    mountedReachable m -> react e m = Showing m' -> mountedReachable m'.

(** The cells a page shows, if it still shows any. *)
Definition pageRender (p : Page) : Rendered :=
  match p with
  | Showing m => Committed (hooks m)
  | TornDown _ => Crashed
  end.

(** What the effect maintains: while running, exactly one live interval,
    held in the ref, whose callback closed over the current mode and
    session count; while stopped, none. *)
Definition oneIntervalWhileRunning (m : Mounted) : Prop :=
  1 <= nextHandle (timers m) /\
  if isRunning (hooks m)
  then exists (h : Z) (closure : Hooks),
         intervalRef m = Some h /\ h <> 0 /\
         live (timers m) = [(h, closure)] /\
         mode closure = mode (hooks m) /\
         completedSessions closure = completedSessions (hooks m)
  else live (timers m) = [].

(** The configuration right after pressing Start on a fresh mount. *)
Definition startedMount : Mounted :=
  mkMounted (mkHooks 1500 true work 0 0) (Some 1)
    (mkTimers [(1, mkHooks 1500 true work 0 0)] 2).

(** ** Derived display values *)

(** [n.toString()] for an integer: its decimal numeral. *)
Definition toString (n : Z) : string :=
  NilZero.string_of_int (Z.to_int n).

(** The first [n] characters of [pad] repeated, continuing from [rest]. *)
Fixpoint filler (n : nat) (pad rest : string) : string :=
  match n with
  | O => EmptyString
  | S n' =>
      match rest with
      | String c rest' => String c (filler n' pad rest')
      | EmptyString =>
          match pad with
          | String c pad' => String c (filler n' pad pad')
          | EmptyString => EmptyString
          end
      end
  end.

(** [s.padStart(targetLength, padString)] *)
Definition padStart (targetLength : nat) (padString s : string) : string :=
  if (targetLength <=? String.length s)%nat then s
  else (filler (targetLength - String.length s) padString padString ++ s)%string.

(** [formatTime]: [Math.floor(seconds / 60)] is the floored quotient and
    [%] the remainder with the dividend's sign. *)
Definition formatTime (seconds : Z) : string :=
  let mins := seconds / 60 in
  let secs := Z.rem seconds 60 in
  (padStart 2 "0" (toString mins) ++ ":" ++ padStart 2 "0" (toString secs))%string.

(** The "Minutes Focused" figure:
    [Math.floor((completedSessions * WORK_DURATION) / 60)]. *)
Definition minutesFocused (s : Hooks) : Z :=
  (completedSessions s * WORK_DURATION) / 60.

(** [getModeColor] *)
Definition getModeColor (s : Hooks) : string :=
  match mode s with
  | work => "from-red-500 to-pink-600"
  | shortBreak => "from-green-500 to-emerald-600"
  | longBreak => "from-blue-500 to-cyan-600"
  end.

(** [getModeLabel] *)
Definition getModeLabel (s : Hooks) : string :=
  match mode s with
  | work => "Focus Time"
  | shortBreak => "Short Break"
  | longBreak => "Long Break"
  end.

(** [hay.includes(needle)] *)
Fixpoint includes (hay needle : string) : bool :=
  String.prefix needle hay
  || match hay with
     | EmptyString => false
     | String _ hay' => includes hay' needle
     end.

(** The colour class of the countdown text. *)
Definition timeTextClass (s : Hooks) : string :=
  if includes (getModeColor s) "red" then "text-red-400"
  else if includes (getModeColor s) "green" then "text-green-400"
  else "text-blue-400".

(** The value of a [TimerMode] as the string it is at run time. *)
Definition modeName (m : TimerMode) : string :=
  match m with
  | work => "work"
  | shortBreak => "shortBreak"
  | longBreak => "longBreak"
  end.

(** The progress circle's [stroke]: a reference to a gradient by id. *)
Definition progressStrokeId (s : Hooks) : string :=
  ("gradient-" ++ modeName (mode s))%string.

(** The ids of the [linearGradient] elements in [defs]. *)
Definition gradientIds : list string :=
  ["gradient-work"%string; "gradient-shortBreak"%string;
   "gradient-longBreak"%string].

(** The decimal digit [d] as a character. *)
Definition digit (d : Z) : ascii := ascii_of_nat (48 + Z.to_nat d).

(** ** The progress value in double precision *)

(** JavaScript evaluates [getProgress] in IEEE binary64.  This module has
    the function as the engine computes it, on Rocq's primitive floats
    (hardware binary64, round to nearest even). *)
Module Binary64.

(** The double holding a positive integer; exact below [2^53]. *)
Fixpoint ofPositive (p : positive) : PrimFloat.float :=
  match p with
  | xH => PrimFloat.one
  | xO p' => PrimFloat.mul PrimFloat.two (ofPositive p')
  | xI p' =>
      PrimFloat.add (PrimFloat.mul PrimFloat.two (ofPositive p'))
        PrimFloat.one
  end.

(** The double holding the integer [z]. *)
Definition number (z : Z) : PrimFloat.float :=
  match z with
  | Z0 => PrimFloat.zero
  | Zpos p => ofPositive p
  | Zneg p => PrimFloat.opp (ofPositive p)
  end.

(** [getProgress], operation for operation. *)
Definition getProgress (s : Hooks) : PrimFloat.float :=
  let totalDuration := number WORK_DURATION in
  let totalDuration :=
    if TimerMode_eqb (mode s) shortBreak then number SHORT_BREAK_DURATION
    else totalDuration in
  let totalDuration :=
    if TimerMode_eqb (mode s) longBreak then number LONG_BREAK_DURATION
    else totalDuration in
  PrimFloat.mul
    (PrimFloat.div (PrimFloat.sub totalDuration (number (timeLeft s)))
       totalDuration)
    (number 100).

(** The rational number a finite double stands for: sign, mantissa and
    binary exponent. *)
Definition value (f : PrimFloat.float) : option Q :=
  match FloatOps.Prim2SF f with
  | SpecFloat.S754_zero _ => Some 0%Q
  | SpecFloat.S754_finite sign m e =>
      let magnitude :=
        if 0 <=? e then inject_Z (Zpos m * 2 ^ e)
        else (Zpos m # Pos.pow 2 (Z.to_pos (- e))) in
      Some (if sign then (- magnitude)%Q else magnitude)
  | _ => None
  end.

(** Whether, in mode [m] with [t] seconds left, the double returned is
    within a relative error of [2^-52] of the exact percentage. *)
Definition percentageRounded (m : TimerMode) (t : Z) : bool :=
  let s := mkHooks t false m 0 0 in
  match value (getProgress s) with
  | Some v =>
      Qle_bool
        (Qabs (v - inject_Z 100 * progressFraction s))
        (inject_Z 100 * progressFraction s * (1 # 2 ^ 52))
  | None => false
  end.

End Binary64.

(** ** Basic facts *)

(** A boolean check that holds on every number below a bound holds for
    each of them. *)
Lemma forall_below (P : Z -> bool) (b : nat) :
  forallb P (map Z.of_nat (seq 0 b)) = true ->
  forall n : Z, 0 <= n < Z.of_nat b -> P n = true.
Proof.
  intros Hall n Hn. rewrite forallb_forall in Hall. apply Hall.
  rewrite <- (Z2Nat.id n) by lia.
  apply in_map. apply in_seq. lia.
Qed.

Lemma modeDuration_pos (m : TimerMode) : 0 < modeDuration m.
Proof. destruct m; simpl; lia. Qed.

(** With sound available the handler returns normally, having started the
    oscillator once. *)
Lemma handleTimerComplete_returns (s : Hooks) :
  exists tr,
    handleTimerComplete s AudioAvailable = (tr, Normal tt) /\
    tones tr = 1%nat /\
    forall s0 : Hooks,
      mode s0 = mode s ->
      completedSessions s0 = completedSessions s ->
      totalSessions s0 = totalSessions s ->
      commit tr s0 = afterCompletion s.
Proof.
  unfold handleTimerComplete, afterCompletion.
  destruct (mode s) eqn:Hm.
  - cbv zeta.
    destruct (Z.rem (completedSessions s + 1) 4 =? 0);
      eexists; (split; [reflexivity | split; [reflexivity |]]);
      intros; reflexivity.
  - eexists; split; [reflexivity | split; [reflexivity |]].
    intros s0 _ Hc Ht. cbn. now rewrite Hc, Ht.
  - eexists; split; [reflexivity | split; [reflexivity |]].
    intros s0 _ Hc Ht. cbn. now rewrite Hc, Ht.
Qed.

(** Without sound the handler throws right after queueing the stop. *)
Lemma handleTimerComplete_throws (s : Hooks) :
  handleTimerComplete s AudioUnavailable
  = ([Enqueue (SetIsRunning false)], Throw).
Proof. reflexivity. Qed.

(** A firing with at most one second left runs the handler and returns 0. *)
Lemma tickUpdater_completes (s : Hooks) (prev : Z) (dev : AudioOutput) :
  prev <= 1 ->
  tickUpdater s prev dev =
  match handleTimerComplete s dev with
  | (tr, Normal _) => (tr, Normal 0)
  | (tr, Throw) => (tr, Throw)
  end.
Proof.
  intros Hle. unfold tickUpdater.
  apply Z.leb_le in Hle. rewrite Hle.
  unfold bind, ret.
  destruct (handleTimerComplete s dev) as [tr [[]|]];
    [rewrite app_nil_r|]; reflexivity.
Qed.

(** A firing with more than one second left only decrements. *)
Lemma tickUpdater_decrements (s : Hooks) (prev : Z) (dev : AudioOutput) :
  1 < prev -> tickUpdater s prev dev = ([], Normal (prev - 1)).
Proof.
  intros Hlt. unfold tickUpdater.
  apply Z.leb_gt in Hlt. now rewrite Hlt.
Qed.

Lemma intervalTick_completes (s : Hooks) :
  isRunning s = true -> timeLeft s <= 1 ->
  intervalTick AudioAvailable s = Committed (afterCompletion s).
Proof.
  intros Hrun Hle.
  unfold intervalTick, intervalActive, runUpdater. rewrite Hrun.
  rewrite (tickUpdater_completes s _ AudioAvailable Hle).
  destruct (handleTimerComplete_returns s) as (tr & -> & _ & Hc).
  f_equal. apply Hc; reflexivity.
Qed.

Lemma intervalTick_decrements (s : Hooks) (dev : AudioOutput) :
  isRunning s = true -> 1 < timeLeft s ->
  intervalTick dev s = Committed (applyUpdate (SetTimeLeft (timeLeft s - 1)) s).
Proof.
  intros Hrun Hlt.
  unfold intervalTick, intervalActive, runUpdater. rewrite Hrun.
  now rewrite (tickUpdater_decrements s _ dev Hlt).
Qed.

Lemma intervalTick_idle (s : Hooks) (dev : AudioOutput) :
  isRunning s = false -> intervalTick dev s = Committed s.
Proof.
  intros Hrun. unfold intervalTick, intervalActive. now rewrite Hrun.
Qed.

Lemma rem4_divide (n : Z) : (Z.rem n 4 =? 0) = true <-> (4 | n).
Proof.
  rewrite Z.eqb_eq. apply Z.rem_divide. discriminate.
Qed.

(** The handler's first effect is always the queued stop. *)
Lemma handleTimerComplete_stops_first (s : Hooks) (dev : AudioOutput) :
  exists tr c,
    handleTimerComplete s dev = (Enqueue (SetIsRunning false) :: tr, c).
Proof.
  destruct dev.
  - destruct (handleTimerComplete_returns s) as (tr & Heq & _).
    unfold handleTimerComplete in *. cbv zeta in *.
    destruct (mode s);
      [destruct (Z.rem (completedSessions s + 1) 4 =? 0) | |];
      do 2 eexists; reflexivity.
  - rewrite handleTimerComplete_throws. now exists [], Throw.
Qed.

Lemma runHandler_toggleTimer (dev : AudioOutput) (s : Hooks) :
  runHandler (toggleTimer s) dev s =
  Committed (mkHooks (timeLeft s) (negb (isRunning s)) (mode s)
               (completedSessions s) (totalSessions s)).
Proof. reflexivity. Qed.

Lemma runHandler_resetTimer (dev : AudioOutput) (s : Hooks) :
  runHandler (resetTimer s) dev s =
  Committed (mkHooks (modeDuration (mode s)) false (mode s)
               (completedSessions s) (totalSessions s)).
Proof.
  unfold resetTimer.
  destruct (mode s) eqn:Hm; cbn; rewrite Hm; reflexivity.
Qed.

Lemma runHandler_switchMode (dev : AudioOutput) (s : Hooks) (m : TimerMode) :
  runHandler (switchMode s m) dev s =
  Committed (mkHooks (modeDuration m) false m (completedSessions s)
               (totalSessions s)).
Proof. destruct m; reflexivity. Qed.

Lemma intervalTick_crashes (s : Hooks) :
  isRunning s = true -> timeLeft s <= 1 ->
  intervalTick AudioUnavailable s = Crashed.
Proof.
  intros Hrun Hle.
  unfold intervalTick, intervalActive, runUpdater. rewrite Hrun.
  rewrite (tickUpdater_completes s _ AudioUnavailable Hle).
  now rewrite handleTimerComplete_throws.
Qed.

(** The executable [dispatch] and the relation describe the same steps. *)
Lemma dispatch_transition (a : Action) (s s' : Hooks) :
  dispatch a s = Committed s' <-> transition s a s'.
Proof.
  split.
  - destruct a as [dev | | | m]; simpl; intros H.
    + destruct (isRunning s) eqn:Hrun.
      * destruct (Z_le_gt_dec (timeLeft s) 1) as [Hle | Hgt].
        -- destruct dev.
           ++ rewrite (intervalTick_completes s Hrun Hle) in H.
              injection H as <-. now constructor.
           ++ rewrite (intervalTick_crashes s Hrun Hle) in H. discriminate.
        -- rewrite (intervalTick_decrements s dev Hrun) in H by lia.
           injection H as <-. simpl. constructor; [assumption | lia].
      * rewrite (intervalTick_idle s dev Hrun) in H.
        injection H as <-. now constructor.
    + rewrite runHandler_toggleTimer in H. injection H as <-. constructor.
    + rewrite runHandler_resetTimer in H. injection H as <-. constructor.
    + rewrite runHandler_switchMode in H. injection H as <-. constructor.
  - intros H. destruct H; simpl.
    + now apply intervalTick_idle.
    + now rewrite intervalTick_decrements.
    + now apply intervalTick_completes.
    + apply runHandler_toggleTimer.
    + apply runHandler_resetTimer.
    + apply runHandler_switchMode.
Qed.

(** [run] stays within the reachable renders. *)
Lemma run_reachable (script : list Action) (s s' : Hooks) :
  reachable s -> run script s = Committed s' -> reachable s'.
Proof.
  revert s. induction script as [| a script IH]; simpl; intros s Hs Hrun.
  - now injection Hrun as <-.
  - destruct (dispatch a s) as [s1 |] eqn:Hd; [| discriminate].
    eapply IH; [| exact Hrun]. eapply reachable_step; eassumption.
Qed.

(** The completion target has a full clock, is stopped, and keeps the two
    counters equal when they were equal. *)
Lemma afterCompletion_fields (s : Hooks) :
  timeLeft (afterCompletion s) = modeDuration (mode (afterCompletion s)) /\
  isRunning (afterCompletion s) = false /\
  mode (afterCompletion s) <> mode s.
Proof.
  unfold afterCompletion.
  destruct (mode s); cbv zeta;
    [destruct (Z.rem (completedSessions s + 1) 4 =? 0) | |];
    simpl; repeat split; discriminate.
Qed.

(** In every reachable render the clock is between one second and the
    mode's duration. *)
Lemma reachable_timeLeft_range (s : Hooks) :
  reachable s -> 1 <= timeLeft s <= modeDuration (mode s).
Proof.
  induction 1 as [| s s' a Hs IH Hd].
  - simpl. unfold WORK_DURATION. lia.
  - apply dispatch_transition in Hd.
    destruct Hd; cbn [timeLeft mode]; try lia.
    + destruct (afterCompletion_fields s) as (-> & _).
      pose proof (modeDuration_pos (mode (afterCompletion s))). lia.
    + pose proof (modeDuration_pos newMode). lia.
Qed.

Lemma reachable_counters_equal (s : Hooks) :
  reachable s -> totalSessions s = completedSessions s.
Proof.
  induction 1 as [| s s' a Hs IH Hd].
  - reflexivity.
  - apply dispatch_transition in Hd.
    destruct Hd; simpl; try assumption.
    unfold afterCompletion.
    destruct (mode s); cbv zeta;
      [destruct (Z.rem (completedSessions s + 1) 4 =? 0) | |];
      simpl; congruence.
Qed.

(** The handler's outcome obeys the specification's transition table. *)
Lemma afterCompletion_table (s : Hooks) :
  completionTable s (afterCompletion s).
Proof.
  unfold completionTable, afterCompletion.
  destruct (mode s); cbv zeta.
  - destruct (Z.rem (completedSessions s + 1) 4 =? 0) eqn:Hrem;
      cbn [completedSessions mode timeLeft].
    + split; [reflexivity | split].
      * intros _. now split.
      * intros Hn. exfalso. apply Hn. now apply rem4_divide.
    + split; [reflexivity | split].
      * intros Hd. apply rem4_divide in Hd. congruence.
      * intros _. now split.
  - now repeat split.
  - now repeat split.
Qed.

(** ** Runs of the specification's scenarios *)

Example first_work_completion :
  intervalTick AudioAvailable (mkHooks 1 true work 0 0)
  = Committed (mkHooks 300 false shortBreak 1 1).
Proof. reflexivity. Qed.

Example fourth_work_completion :
  intervalTick AudioAvailable (mkHooks 1 true work 3 3)
  = Committed (mkHooks 900 false longBreak 4 4).
Proof. reflexivity. Qed.

Example break_completion :
  intervalTick AudioAvailable (mkHooks 1 true longBreak 4 4)
  = Committed (mkHooks 1500 false work 4 4).
Proof. reflexivity. Qed.

Example paused_timer_ignores_ticks :
  run [ToggleTimer; Tick AudioAvailable; ToggleTimer;
       Tick AudioAvailable; Tick AudioAvailable] initialHooks
  = Committed (mkHooks 1499 false work 0 0).
Proof. reflexivity. Qed.

Example first_pomodoro_run :
  run firstPomodoro initialHooks
  = Committed (mkHooks 300 false shortBreak 1 1).
Proof. vm_compute. reflexivity. Qed.

(** ** The claims *)

(** C1. A tick that fires while running with at most one second left (the
    updater returns 0: the clock has reached zero) completes the interval
    when the sound call returns.  From Work the session count goes up by
    one and the next mode is LongBreak with 900 seconds when the new count
    is divisible by 4, else ShortBreak with 300 seconds; from either break
    the next mode is Work with 1500 seconds and the count is unchanged.
    In every case the timer is stopped and the tone is started exactly
    once. *)
Theorem completion_transition (s : Hooks) :
  isRunning s = true -> timeLeft s <= 1 ->
  exists tr s',
    handleTimerComplete s AudioAvailable = (tr, Normal tt) /\
    tickUpdater s (timeLeft s) AudioAvailable = (tr, Normal 0) /\
    tones tr = 1%nat /\
    intervalTick AudioAvailable s = Committed s' /\
    isRunning s' = false /\
    completionTable s s'.
Proof.
  intros Hrun Hle.
  destruct (handleTimerComplete_returns s) as (tr & Hh & Htone & _).
  exists tr, (afterCompletion s). repeat split.
  - exact Hh.
  - rewrite (tickUpdater_completes s _ AudioAvailable Hle). now rewrite Hh.
  - exact Htone.
  - now apply intervalTick_completes.
  - apply afterCompletion_fields.
  - apply afterCompletion_table.
Qed.

Lemma completion_transition_witness :
  isRunning lastSecondOfWork = true /\
  timeLeft lastSecondOfWork <= 1 /\
  exists s',
    intervalTick AudioAvailable lastSecondOfWork = Committed s' /\
    isRunning s' = false /\ mode s' = shortBreak /\ timeLeft s' = 300 /\
    completedSessions s' = 1.
Proof.
  assert (Hrun : isRunning lastSecondOfWork = true) by reflexivity.
  assert (Hle : timeLeft lastSecondOfWork <= 1) by (simpl; lia).
  split; [exact Hrun | split; [exact Hle |]].
  destruct (completion_transition lastSecondOfWork Hrun Hle)
    as (tr & s' & _ & _ & _ & Htick & Hstop & Hcount & _ & Hshort).
  exists s'. simpl in Hcount.
  assert (Hnd : ~ (4 | completedSessions s')).
  { rewrite Hcount. intros [k Hk]. lia. }
  destruct (Hshort Hnd) as [Hm Ht].
  repeat split; assumption.
Defined.

(** C2 (as the code has it).  Nothing catches a failure of the sound call:
    when it throws, [handleTimerComplete] stops right after queueing
    [isRunning := false], the tick's updater throws instead of returning a
    value, and no render is committed; the completion of C1 happens only
    when the sound call returns.  With more than one second left the tick
    never reaches the sound call and is the same with or without audio. *)
Theorem audio_failure_aborts_completion (s : Hooks) :
  isRunning s = true ->
  (timeLeft s <= 1 ->
   handleTimerComplete s AudioUnavailable
     = ([Enqueue (SetIsRunning false)], Throw) /\
   tickUpdater s (timeLeft s) AudioUnavailable
     = ([Enqueue (SetIsRunning false)], Throw) /\
   intervalTick AudioUnavailable s = Crashed /\
   exists s',
     intervalTick AudioAvailable s = Committed s' /\
     isRunning s' = false /\ completionTable s s') /\
  (1 < timeLeft s ->
   intervalTick AudioUnavailable s = intervalTick AudioAvailable s).
Proof.
  intros Hrun. split.
  - intros Hle. split; [apply handleTimerComplete_throws | split; [| split]].
    + rewrite (tickUpdater_completes s _ AudioUnavailable Hle).
      now rewrite handleTimerComplete_throws.
    + now apply intervalTick_crashes.
    + exists (afterCompletion s). split; [| split].
      * now apply intervalTick_completes.
      * apply afterCompletion_fields.
      * apply afterCompletion_table.
  - intros Hlt. now rewrite !intervalTick_decrements.
Qed.

Lemma audio_failure_aborts_completion_witness :
  isRunning lastSecondOfWork = true /\
  timeLeft lastSecondOfWork <= 1 /\
  intervalTick AudioUnavailable lastSecondOfWork = Crashed.
Proof.
  assert (Hrun : isRunning lastSecondOfWork = true) by reflexivity.
  assert (Hle : timeLeft lastSecondOfWork <= 1) by (simpl; lia).
  split; [exact Hrun | split; [exact Hle |]].
  destruct (audio_failure_aborts_completion lastSecondOfWork Hrun)
    as [Hdone _].
  destruct (Hdone Hle) as (_ & _ & Hcrash & _). exact Hcrash.
Defined.

(** C2, refuted as stated: at the last second of a Work interval the tick
    commits the ShortBreak render when the sound plays, and commits nothing
    when the sound call throws. *)
Lemma audio_failure_changes_outcome :
  intervalTick AudioAvailable lastSecondOfWork
    = Committed (mkHooks 300 false shortBreak 1 1) /\
  intervalTick AudioUnavailable lastSecondOfWork = Crashed /\
  handleTimerComplete lastSecondOfWork AudioUnavailable
    = ([Enqueue (SetIsRunning false)], Throw) /\
  intervalTick AudioUnavailable lastSecondOfWork
    <> intervalTick AudioAvailable lastSecondOfWork.
Proof.
  repeat split; try reflexivity. discriminate.
Qed.

(** C3 (as the code has it).  For every render with the timer running,
    a tick either takes exactly one second off the clock and changes
    nothing else (more than one second left), or, with at most one second
    left, runs the completion handler once: the updater's own result is 0,
    but the handler's queued [setTimeLeft] is applied after it, so the
    clock that is committed shows the next mode's fixed duration, not 0
    (and when the sound call throws, nothing is committed).  No tick
    leaves any other value on the clock. *)
Theorem tick_decrements_or_completes (dev : AudioOutput) (s : Hooks) :
  isRunning s = true ->
  (1 < timeLeft s /\
   tickUpdater s (timeLeft s) dev = ([], Normal (timeLeft s - 1)) /\
   intervalTick dev s =
     Committed (mkHooks (timeLeft s - 1) true (mode s)
                  (completedSessions s) (totalSessions s)))
  \/
  (timeLeft s <= 1 /\
   exists tr c,
     handleTimerComplete s dev = (Enqueue (SetIsRunning false) :: tr, c) /\
     tickUpdater s (timeLeft s) dev =
       (Enqueue (SetIsRunning false) :: tr,
        match c with Normal _ => Normal 0 | Throw => Throw end) /\
     (dev = AudioAvailable ->
      c = Normal tt /\
      tones (Enqueue (SetIsRunning false) :: tr) = 1%nat /\
      exists s',
        intervalTick dev s = Committed s' /\
        s' = commit (Enqueue (SetIsRunning false) :: tr)
               (mkHooks 0 true (mode s) (completedSessions s)
                  (totalSessions s)) /\
        timeLeft s' = modeDuration (mode s') /\
        mode s' <> mode s /\
        isRunning s' = false) /\
     (dev = AudioUnavailable -> c = Throw /\ intervalTick dev s = Crashed)).
Proof.
  intros Hrun.
  destruct (Z_le_gt_dec (timeLeft s) 1) as [Hle | Hgt].
  - right. split; [exact Hle |].
    destruct (handleTimerComplete_stops_first s dev) as (tr & c & Hh).
    pose proof (tickUpdater_completes s (timeLeft s) dev Hle) as Hu.
    rewrite Hh in Hu. exists tr, c.
    split; [exact Hh | split; [| split]].
    + rewrite Hu. now destruct c as [[] |].
    + intros ->.
      destruct (handleTimerComplete_returns s) as (tr0 & Hh0 & Htone & _).
      rewrite Hh in Hh0. injection Hh0 as <- ->.
      split; [reflexivity | split; [exact Htone |]].
      exists (afterCompletion s).
      pose proof (intervalTick_completes s Hrun Hle) as Htick.
      destruct (afterCompletion_fields s) as (Htime & Hstop & Hmode).
      split; [exact Htick | split; [| now repeat split]].
      unfold intervalTick, intervalActive, runUpdater in Htick.
      rewrite Hrun, Hu in Htick. cbn [applyUpdate] in Htick.
      rewrite Hrun in Htick. now injection Htick as <-.
    + intros ->. rewrite handleTimerComplete_throws in Hh.
      injection Hh as _ <-.
      split; [reflexivity | now apply intervalTick_crashes].
  - left. assert (Hlt : 1 < timeLeft s) by lia.
    split; [exact Hlt | split].
    + now apply tickUpdater_decrements.
    + rewrite (intervalTick_decrements s dev Hrun Hlt).
      cbn [applyUpdate]. now rewrite Hrun.
Qed.

Lemma tick_decrements_or_completes_witness :
  isRunning lastSecondOfWork = true /\
  exists s',
    intervalTick AudioAvailable lastSecondOfWork = Committed s' /\
    timeLeft s' = modeDuration (mode s').
Proof.
  assert (Hrun : isRunning lastSecondOfWork = true) by reflexivity.
  split; [exact Hrun |].
  destruct (tick_decrements_or_completes AudioAvailable lastSecondOfWork Hrun)
    as [(Hlt & _) | (_ & tr & c & _ & _ & Hplay & _)].
  - cbn in Hlt. lia.
  - destruct (Hplay eq_refl) as (_ & _ & s' & Htick & _ & Htime & _).
    now exists s'.
Defined.

(** C3, refuted as stated: at the last second of a Work interval the tick
    that runs the completion handler commits 300 seconds on the clock,
    which is neither 0 nor one less than before. *)
Lemma completing_tick_commits_next_duration :
  isRunning lastSecondOfWork = true /\
  timeLeft lastSecondOfWork = 1 /\
  intervalTick AudioAvailable lastSecondOfWork
    = Committed (mkHooks 300 false shortBreak 1 1) /\
  timeLeft (mkHooks 300 false shortBreak 1 1) <> 0 /\
  timeLeft (mkHooks 300 false shortBreak 1 1)
    <> timeLeft lastSecondOfWork - 1.
Proof.
  repeat split; try reflexivity; discriminate.
Qed.

(** C4 (as the code has it).  In every reachable render the clock lies
    between 0 and the current mode's duration.  While the timer is stopped
    a tick changes nothing, and neither toggling nor reset lowers the clock;
    switchMode puts the clock at the new mode's duration, whatever it was. *)
Theorem reachable_clock_bounds (s : Hooks) :
  reachable s ->
  0 <= timeLeft s <= modeDuration (mode s) /\
  (isRunning s = false ->
   forall (a : Action) (s' : Hooks),
     dispatch a s = Committed s' ->
     match a with
     | Tick _ => s' = s
     | ToggleTimer | ResetTimer => timeLeft s <= timeLeft s'
     | SwitchMode newMode => timeLeft s' = modeDuration newMode
     end).
Proof.
  intros Hs. pose proof (reachable_timeLeft_range s Hs) as Hrange.
  split; [lia |].
  intros Hstop a s' Hd. apply dispatch_transition in Hd.
  destruct Hd; cbn [timeLeft]; try reflexivity; try congruence; lia.
Qed.

Lemma reachable_clock_bounds_witness :
  reachable initialHooks /\
  0 <= timeLeft initialHooks <= modeDuration (mode initialHooks).
Proof.
  split; [exact reachable_mount |].
  exact (proj1 (reachable_clock_bounds initialHooks reachable_mount)).
Defined.

(** C4, refuted as stated: right after mount the timer is stopped with 1500
    seconds on the clock, and switching to ShortBreak lowers it to 300. *)
Lemma switchMode_lowers_stopped_clock :
  reachable initialHooks /\
  isRunning initialHooks = false /\
  timeLeft initialHooks = 1500 /\
  dispatch (SwitchMode shortBreak) initialHooks
    = Committed (mkHooks 300 false shortBreak 0 0) /\
  timeLeft (mkHooks 300 false shortBreak 0 0) < timeLeft initialHooks.
Proof.
  repeat split; try reflexivity. exact reachable_mount.
Qed.

(** C5 (as the code has it).  With the clock between 0 and the current
    mode's duration, [getProgress] is the percentage
    [100 * (duration - remaining) / duration] evaluated in double
    precision: the double returned is finite and within a relative
    rounding error of [2^-52] of that value.  In Work mode it is exactly 0
    with 1500 seconds left and exactly 100 with none left. *)
Theorem getProgress_percentage (s : Hooks) :
  0 <= timeLeft s <= modeDuration (mode s) ->
  (exists v : Q,
     Binary64.value (Binary64.getProgress s) = Some v /\
     (Qabs (v - inject_Z 100 * progressFraction s)
      <= inject_Z 100 * progressFraction s * (1 # 2 ^ 52))%Q) /\
  (mode s = work -> timeLeft s = 1500 ->
   Binary64.getProgress s = Binary64.number 0) /\
  (mode s = work -> timeLeft s = 0 ->
   Binary64.getProgress s = Binary64.number 100).
Proof.
  intros Hrange.
  assert (Hcells : Binary64.getProgress s
                   = Binary64.getProgress
                       (mkHooks (timeLeft s) false (mode s) 0 0))
    by reflexivity.
  split; [| split].
  - assert (Hchk : Binary64.percentageRounded (mode s) (timeLeft s) = true).
    { destruct (mode s); cbn [modeDuration] in Hrange.
      - apply (forall_below (Binary64.percentageRounded work) 1501);
          [vm_compute; reflexivity |].
        change (Z.of_nat 1501) with 1501. lia.
      - apply (forall_below (Binary64.percentageRounded shortBreak) 301);
          [vm_compute; reflexivity |].
        change (Z.of_nat 301) with 301. lia.
      - apply (forall_below (Binary64.percentageRounded longBreak) 901);
          [vm_compute; reflexivity |].
        change (Z.of_nat 901) with 901. lia. }
    unfold Binary64.percentageRounded in Hchk. cbv zeta in Hchk.
    rewrite <- Hcells in Hchk.
    destruct (Binary64.value (Binary64.getProgress s)) as [v |];
      [| discriminate].
    exists v. split; [reflexivity |].
    apply Qle_bool_iff in Hchk. exact Hchk.
  - intros Hm Ht. rewrite Hcells, Hm, Ht. vm_compute. reflexivity.
  - intros Hm Ht. rewrite Hcells, Hm, Ht. vm_compute. reflexivity.
Qed.

Lemma getProgress_percentage_witness :
  0 <= timeLeft midWork <= modeDuration (mode midWork) /\
  exists v : Q,
    Binary64.value (Binary64.getProgress midWork) = Some v /\
    (Qabs (v - inject_Z 100 * progressFraction midWork)
     <= inject_Z 100 * progressFraction midWork * (1 # 2 ^ 52))%Q.
Proof.
  assert (Hrange : 0 <= timeLeft midWork <= modeDuration (mode midWork))
    by (cbn; lia).
  split; [exact Hrange |].
  exact (proj1 (getProgress_percentage midWork Hrange)).
Defined.

(** C5, refuted as stated: in Work mode with no time left [getProgress]
    returns the double 100, not 1, while the fraction itself is 1. *)
Lemma getProgress_full_is_100 :
  Binary64.getProgress (mkHooks 0 false work 0 0) = Binary64.number 100 /\
  (exists v : Q,
     Binary64.value (Binary64.getProgress (mkHooks 0 false work 0 0))
       = Some v /\
     (v == inject_Z 100)%Q /\ ~ (v == 1)%Q) /\
  Binary64.getProgress (mkHooks 0 false work 0 0) <> Binary64.number 1 /\
  (progressFraction (mkHooks 0 false work 0 0) == 1)%Q.
Proof.
  split; [vm_compute; reflexivity | split; [| split; [| reflexivity]]].
  - eexists. split; [vm_compute; reflexivity |].
    split; [reflexivity | discriminate].
  - intros H. apply (f_equal Binary64.value) in H.
    vm_compute in H. discriminate.
Qed.

(** C6. From every render, switchMode to any of the three modes stops the
    timer, selects the mode and puts its fixed duration (1500, 300 or 900
    seconds) on the clock; the session counters are untouched. *)
Theorem switchMode_resets_to_mode (dev : AudioOutput) (s : Hooks)
  (newMode : TimerMode) :
  runHandler (switchMode s newMode) dev s =
    Committed (mkHooks (modeDuration newMode) false newMode
                 (completedSessions s) (totalSessions s)) /\
  dispatch (SwitchMode newMode) s =
    Committed (mkHooks (modeDuration newMode) false newMode
                 (completedSessions s) (totalSessions s)) /\
  modeDuration newMode =
    match newMode with work => 1500 | shortBreak => 300 | longBreak => 900 end.
Proof.
  split; [apply runHandler_switchMode | split].
  - apply runHandler_switchMode.
  - reflexivity.
Qed.

(** C7. From every render, reset stops the timer and puts the current
    mode's fixed duration on the clock, leaving the mode and the session
    counters as they were; from LongBreak with 42 seconds left and running
    it yields 900 seconds, stopped. *)
Theorem resetTimer_restores_duration (dev : AudioOutput) (s : Hooks) :
  runHandler (resetTimer s) dev s =
    Committed (mkHooks (modeDuration (mode s)) false (mode s)
                 (completedSessions s) (totalSessions s)) /\
  dispatch ResetTimer s =
    Committed (mkHooks (modeDuration (mode s)) false (mode s)
                 (completedSessions s) (totalSessions s)) /\
  (forall n t : Z,
     dispatch ResetTimer (mkHooks 42 true longBreak n t)
       = Committed (mkHooks 900 false longBreak n t)).
Proof.
  split; [apply runHandler_resetTimer | split].
  - apply runHandler_resetTimer.
  - reflexivity.
Qed.

(** C8. From every render, the start/pause toggle negates [isRunning] and
    leaves the clock, the mode and both session counters unchanged. *)
Theorem toggleTimer_flips_running (dev : AudioOutput) (s : Hooks) :
  runHandler (toggleTimer s) dev s =
    Committed (mkHooks (timeLeft s) (negb (isRunning s)) (mode s)
                 (completedSessions s) (totalSessions s)) /\
  dispatch ToggleTimer s =
    Committed (mkHooks (timeLeft s) (negb (isRunning s)) (mode s)
                 (completedSessions s) (totalSessions s)).
Proof.
  split; apply runHandler_toggleTimer.
Qed.

(** C9. Both counters are 0 at mount; in every reachable render
    [totalSessions] equals [completedSessions]; a step either leaves both
    as they were or is the completion of a Work interval, which sets both
    to the old count plus one. *)
Theorem totalSessions_mirrors_completed (s : Hooks) :
  reachable s ->
  completedSessions initialHooks = 0 /\ totalSessions initialHooks = 0 /\
  totalSessions s = completedSessions s /\
  (forall (a : Action) (s' : Hooks),
     dispatch a s = Committed s' ->
     (completedSessions s' = completedSessions s /\
      totalSessions s' = totalSessions s)
     \/
     (a = Tick AudioAvailable /\ mode s = work /\ isRunning s = true /\
      timeLeft s <= 1 /\
      completedSessions s' = completedSessions s + 1 /\
      totalSessions s' = completedSessions s + 1)).
Proof.
  intros Hs.
  split; [reflexivity | split; [reflexivity | split]].
  - now apply reachable_counters_equal.
  - intros a s' Hd. apply dispatch_transition in Hd.
    destruct Hd as [dev Hr | dev Hr Hlt | Hr Hle | | | m];
      try (left; split; reflexivity).
    unfold afterCompletion. destruct (mode s) eqn:Hm.
    + right. cbv zeta.
      destruct (Z.rem (completedSessions s + 1) 4 =? 0); now repeat split.
    + left. now split.
    + left. now split.
Qed.

Lemma totalSessions_mirrors_completed_witness :
  reachable (mkHooks 300 false shortBreak 1 1) /\
  totalSessions (mkHooks 300 false shortBreak 1 1)
    = completedSessions (mkHooks 300 false shortBreak 1 1).
Proof.
  assert (Hr : reachable (mkHooks 300 false shortBreak 1 1)).
  { apply (run_reachable firstPomodoro initialHooks);
      [exact reachable_mount | vm_compute; reflexivity]. }
  split; [exact Hr |].
  exact (proj1 (proj2 (proj2 (totalSessions_mirrors_completed _ Hr)))).
Defined.

(** C10. The updater's guard is [prev <= 1]: the completion handler runs
    exactly when the value handed to the updater is at most 1.  So a tick
    that fires while running with the clock already at 0 completes the
    interval: the tone is started once, the timer is stopped, the mode
    changes, the clock shows the next mode's duration and, from Work, the
    session count goes up by one; the render is not left as it was. *)
Theorem tick_at_zero_completes (s : Hooks) :
  isRunning s = true -> timeLeft s = 0 ->
  (forall (prev : Z) (dev : AudioOutput),
     fst (tickUpdater s prev dev) <> [] <-> prev <= 1) /\
  exists tr s',
    handleTimerComplete s AudioAvailable = (tr, Normal tt) /\
    tickUpdater s 0 AudioAvailable = (tr, Normal 0) /\
    tones tr = 1%nat /\
    intervalTick AudioAvailable s = Committed s' /\
    s' <> s /\
    isRunning s' = false /\
    mode s' <> mode s /\
    timeLeft s' = modeDuration (mode s') /\
    completionTable s s'.
Proof.
  intros Hrun Hzero.
  assert (Hle : timeLeft s <= 1) by lia.
  split.
  - intros prev dev. split.
    + intros Hne. destruct (Z_le_gt_dec prev 1) as [| Hgt]; [assumption |].
      rewrite tickUpdater_decrements in Hne by lia. now elim Hne.
    + intros Hp. rewrite (tickUpdater_completes s prev dev Hp).
      destruct (handleTimerComplete_stops_first s dev) as (tr & c & ->).
      destruct c; discriminate.
  - destruct (handleTimerComplete_returns s) as (tr & Hh & Htone & _).
    destruct (afterCompletion_fields s) as (Htime & Hstop & Hmode).
    exists tr, (afterCompletion s).
    split; [exact Hh | split; [| split; [exact Htone | split]]].
    + rewrite (tickUpdater_completes s 0 AudioAvailable) by lia.
      now rewrite Hh.
    + now apply intervalTick_completes.
    + split; [congruence | split; [exact Hstop | split; [exact Hmode |]]].
      split; [exact Htime | apply afterCompletion_table].
Qed.

Lemma tick_at_zero_completes_witness :
  isRunning stalledAtZero = true /\
  timeLeft stalledAtZero = 0 /\
  exists s',
    intervalTick AudioAvailable stalledAtZero = Committed s' /\
    mode s' = work /\ timeLeft s' = 1500.
Proof.
  assert (Hrun : isRunning stalledAtZero = true) by reflexivity.
  assert (Hzero : timeLeft stalledAtZero = 0) by reflexivity.
  split; [exact Hrun | split; [exact Hzero |]].
  destruct (tick_at_zero_completes stalledAtZero Hrun Hzero)
    as (_ & tr & s' & _ & _ & _ & Htick & _ & _ & _ & _ & Hm & Ht & _).
  exists s'. repeat split; assumption.
Defined.

(** ** The interval effect: one live interval, never a stale one *)

Lemma TimerMode_eqb_eq (a b : TimerMode) : TimerMode_eqb a b = true <-> a = b.
Proof. destruct a, b; simpl; split; congruence. Qed.

Lemma depsChanged_false (old new : Hooks) :
  depsChanged old new = false ->
  isRunning old = isRunning new /\ mode old = mode new /\
  completedSessions old = completedSessions new.
Proof.
  unfold depsChanged. intros H.
  apply orb_false_elim in H as [H Hc].
  apply orb_false_elim in H as [Hr Hm].
  apply negb_false_iff in Hr, Hm, Hc.
  repeat split.
  - now apply Bool.eqb_prop.
  - now apply TimerMode_eqb_eq.
  - now apply Z.eqb_eq.
Qed.

(** After the cleanup nothing is live, whatever render is being committed. *)
Lemma cleanup_clears (m : Mounted) (s' : Hooks) :
  oneIntervalWhileRunning m ->
  let c := clearIfSet (mkMounted s' (intervalRef m) (timers m)) in
  live (timers c) = [] /\
  nextHandle (timers c) = nextHandle (timers m) /\
  hooks c = s'.
Proof.
  intros [_ Hinv]. unfold clearIfSet. cbn.
  destruct (isRunning (hooks m)).
  - destruct Hinv as (h & closure & -> & Hnz & Hlive & _).
    apply Z.eqb_neq in Hnz. rewrite Hnz. cbn.
    rewrite Hlive. cbn. rewrite Z.eqb_refl. now cbn.
  - destruct (intervalRef m) as [h |]; cbn; [| now rewrite Hinv].
    destruct (negb (h =? 0)); cbn; now rewrite Hinv.
Qed.

(** Clearing when nothing is live changes nothing but is harmless. *)
Lemma clearIfSet_idle (m : Mounted) :
  live (timers m) = [] ->
  live (timers (clearIfSet m)) = [] /\
  nextHandle (timers (clearIfSet m)) = nextHandle (timers m) /\
  hooks (clearIfSet m) = hooks m.
Proof.
  intros Hlive. unfold clearIfSet.
  destruct (intervalRef m) as [h |]; cbn; [| now rewrite Hlive].
  destruct (negb (h =? 0)); cbn; now rewrite Hlive.
Qed.

Lemma effectBody_establishes (m : Mounted) :
  live (timers m) = [] -> 1 <= nextHandle (timers m) ->
  oneIntervalWhileRunning (effectBody m) /\ hooks (effectBody m) = hooks m.
Proof.
  intros Hlive Hnext. unfold effectBody.
  destruct (isRunning (hooks m)) eqn:Hrun.
  - cbn. split; [| reflexivity].
    unfold oneIntervalWhileRunning. cbn. rewrite Hrun, Hlive.
    split; [lia |].
    exists (nextHandle (timers m)), (hooks m).
    repeat split; try reflexivity. lia.
  - destruct (clearIfSet_idle m Hlive) as (Hl & Hn & Hh).
    split; [| exact Hh].
    unfold oneIntervalWhileRunning. rewrite Hh, Hrun, Hn. now split.
Qed.

Lemma rerender_hooks (m : Mounted) (s' : Hooks) :
  oneIntervalWhileRunning m -> hooks (rerender m s') = s'.
Proof.
  intros Hinv. unfold rerender, effectCleanup.
  destruct (depsChanged (hooks m) s'); [| reflexivity].
  destruct (cleanup_clears m s' Hinv) as (Hl & Hn & Hh).
  destruct (effectBody_establishes _ Hl) as [_ Hb].
  - rewrite Hn. apply Hinv.
  - now rewrite Hb.
Qed.

Lemma rerender_keeps_invariant (m : Mounted) (s' : Hooks) :
  oneIntervalWhileRunning m -> oneIntervalWhileRunning (rerender m s').
Proof.
  intros Hinv. unfold rerender, effectCleanup.
  destruct (depsChanged (hooks m) s') eqn:Hdeps.
  - destruct (cleanup_clears m s' Hinv) as (Hl & Hn & _).
    apply effectBody_establishes; [exact Hl |].
    rewrite Hn. apply Hinv.
  - apply depsChanged_false in Hdeps as (Hr & Hm & Hc).
    destruct Hinv as [Hn Hinv].
    unfold oneIntervalWhileRunning. cbn. rewrite <- Hr, <- Hm, <- Hc.
    now split.
Qed.

Lemma mount_invariant : oneIntervalWhileRunning mount.
Proof.
  unfold oneIntervalWhileRunning. cbn. split; [lia | reflexivity].
Qed.

Lemma react_showing (e : Event) (m m' : Mounted) :
  react e m = Showing m' ->
  m' = m \/ exists s', m' = rerender m s'.
Proof.
  unfold react, settle. intros H.
  destruct e as [h dev | | | newMode].
  - destruct (lookupTimer h (timers m)) as [closure |].
    + destruct (runUpdater (tickUpdater closure) dev (hooks m)) as [s' |];
        [| discriminate].
      injection H as <-. right. now exists s'.
    + injection H as <-. now left.
  - rewrite runHandler_toggleTimer in H. injection H as <-.
    right. now eexists.
  - rewrite runHandler_resetTimer in H. injection H as <-.
    right. now eexists.
  - rewrite runHandler_switchMode in H. injection H as <-.
    right. now eexists.
Qed.

Lemma mountedReachable_invariant (m : Mounted) :
  mountedReachable m -> oneIntervalWhileRunning m.
Proof.
  induction 1 as [| m m' e Hm IH Hstep].
  - exact mount_invariant.
  - apply react_showing in Hstep as [-> | [s' ->]]; [exact IH |].
    now apply rerender_keeps_invariant.
Qed.

(** The callback only looks at the mode and the session count of the
    render it closed over. *)
Lemma tickUpdater_closure (r s : Hooks) (prev : Z) :
  mode r = mode s -> completedSessions r = completedSessions s ->
  tickUpdater r prev = tickUpdater s prev.
Proof.
  intros Hm Hc. unfold tickUpdater, handleTimerComplete.
  now rewrite Hm, Hc.
Qed.

Lemma startedMount_reachable : mountedReachable startedMount.
Proof.
  apply (mounted_step mount startedMount ClickStartPause);
    [exact mounted_first | reflexivity].
Qed.

Lemma pageRender_settle (m : Mounted) (r : Rendered) :
  oneIntervalWhileRunning m -> pageRender (settle m r) = r.
Proof.
  intros Hinv. destruct r as [s' |]; cbn; [| reflexivity].
  now rewrite rerender_hooks.
Qed.

(** X1. In every configuration the mounted component can reach, the page
    holds exactly one live interval while the timer is running and none
    while it is stopped; the live one is the handle stored in the ref, and
    its callback closed over the current mode and session count. *)
Theorem one_live_interval_iff_running (m : Mounted) :
  mountedReachable m ->
  (isRunning (hooks m) = true ->
   exists (h : Z) (closure : Hooks),
     intervalRef m = Some h /\
     live (timers m) = [(h, closure)] /\
     mode closure = mode (hooks m) /\
     completedSessions closure = completedSessions (hooks m)) /\
  (isRunning (hooks m) = false -> live (timers m) = []).
Proof.
  intros Hm. destruct (mountedReachable_invariant m Hm) as [_ Hinv].
  split; intros Hrun; rewrite Hrun in Hinv.
  - destruct Hinv as (h & closure & Href & _ & Hlive & Hmode & Hcount).
    now exists h, closure.
  - exact Hinv.
Qed.

Lemma one_live_interval_iff_running_witness :
  mountedReachable startedMount /\
  exists (h : Z) (closure : Hooks),
    intervalRef startedMount = Some h /\
    live (timers startedMount) = [(h, closure)] /\
    mode closure = mode (hooks startedMount) /\
    completedSessions closure = completedSessions (hooks startedMount).
Proof.
  split; [exact startedMount_reachable |].
  exact (proj1 (one_live_interval_iff_running startedMount
                  startedMount_reachable) eq_refl).
Defined.

(** X2. While the timer is running, a firing of the interval held in the
    ref changes the cells exactly as [intervalTick] does (and tears the
    page down when that crashes); while it is stopped, no handle, however
    old, has a callback left to run, so a firing changes nothing. *)
Theorem interval_firing_is_tick (m : Mounted) (h : Z) (dev : AudioOutput) :
  mountedReachable m ->
  (isRunning (hooks m) = true -> intervalRef m = Some h ->
   pageRender (react (IntervalFires h dev) m) = intervalTick dev (hooks m)) /\
  (isRunning (hooks m) = false ->
   react (IntervalFires h dev) m = Showing m).
Proof.
  intros Hm. pose proof (mountedReachable_invariant m Hm) as Hinv.
  destruct Hinv as [Hn Hcase]. split; intros Hrun; rewrite Hrun in Hcase.
  - intros Href.
    destruct Hcase as (h' & closure & Href' & _ & Hlive & Hmode & Hcount).
    assert (h' = h) by congruence. subst h'.
    unfold react, lookupTimer. rewrite Hlive. cbn. rewrite Z.eqb_refl. cbn.
    rewrite pageRender_settle by now apply mountedReachable_invariant.
    unfold intervalTick, intervalActive, runUpdater. rewrite Hrun.
    now rewrite (tickUpdater_closure closure (hooks m)).
  - unfold react, lookupTimer. now rewrite Hcase.
Qed.

Lemma interval_firing_is_tick_witness :
  mountedReachable startedMount /\
  pageRender (react (IntervalFires 1 AudioAvailable) startedMount)
    = intervalTick AudioAvailable (hooks startedMount).
Proof.
  split; [exact startedMount_reachable |].
  exact (proj1 (interval_firing_is_tick startedMount 1 AudioAvailable
                  startedMount_reachable) eq_refl eq_refl).
Defined.

(** X3. Unmounting from any reachable configuration leaves no live
    interval behind, and neither does the teardown after an exception. *)
Theorem unmount_leaves_no_interval (m : Mounted) :
  mountedReachable m ->
  live (unmount m) = [] /\
  (forall (e : Event) (t : Timers), react e m = TornDown t -> live t = []).
Proof.
  intros Hm. pose proof (mountedReachable_invariant m Hm) as Hinv.
  assert (Hun : live (unmount m) = []).
  { pose proof (cleanup_clears m (hooks m) Hinv) as Hc.
    destruct m as [s ref t]. cbn in Hc. apply Hc. }
  split; [exact Hun |].
  intros e t Ht. unfold react, settle in Ht.
  destruct e as [h dev | | | newMode].
  - destruct (lookupTimer h (timers m)); [| discriminate].
    destruct (runUpdater _ dev (hooks m)); [discriminate |].
    now injection Ht as <-.
  - rewrite runHandler_toggleTimer in Ht. discriminate.
  - rewrite runHandler_resetTimer in Ht. discriminate.
  - rewrite runHandler_switchMode in Ht. discriminate.
Qed.

Lemma unmount_leaves_no_interval_witness :
  mountedReachable startedMount /\ live (unmount startedMount) = [].
Proof.
  split; [exact startedMount_reachable |].
  exact (proj1 (unmount_leaves_no_interval startedMount
                  startedMount_reachable)).
Defined.

(** X4. The cells of every configuration the mounted component reaches
    form a render reachable by [dispatch]: each event either leaves the
    cells alone or is one [dispatch] step. *)
Theorem mounted_cells_reachable (m : Mounted) :
  mountedReachable m -> reachable (hooks m).
Proof.
  induction 1 as [| m m' e Hm IH Hstep].
  - exact reachable_mount.
  - pose proof (mountedReachable_invariant m Hm) as Hinv.
    unfold react, settle in Hstep.
    destruct e as [h dev | | | newMode].
    + destruct (lookupTimer h (timers m)) as [closure |] eqn:Hlook;
        [| now injection Hstep as <-].
      destruct (isRunning (hooks m)) eqn:Hrun.
      * destruct Hinv as [_ Hcase]. rewrite Hrun in Hcase.
        destruct Hcase as (h' & c' & _ & _ & Hlive & Hmode & Hcount).
        unfold lookupTimer in Hlook. rewrite Hlive in Hlook. cbn in Hlook.
        destruct (h' =? h); [| discriminate]. cbn in Hlook.
        injection Hlook as <-.
        destruct (runUpdater (tickUpdater c') dev (hooks m)) as [s' |] eqn:Hu;
          [| discriminate].
        injection Hstep as <-.
        rewrite rerender_hooks
          by now apply mountedReachable_invariant.
        apply (reachable_step (hooks m) s' (Tick dev)); [exact IH |].
        cbn. unfold intervalTick, intervalActive. rewrite Hrun.
        unfold runUpdater in *.
        now rewrite <- (tickUpdater_closure c' (hooks m)).
      * destruct Hinv as [_ Hcase]. rewrite Hrun in Hcase.
        unfold lookupTimer in Hlook. rewrite Hcase in Hlook. discriminate.
    + destruct (runHandler _ AudioAvailable (hooks m)) as [s' |] eqn:Hh;
        [| discriminate].
      injection Hstep as <-. rewrite rerender_hooks by assumption.
      now apply (reachable_step (hooks m) s' ToggleTimer).
    + destruct (runHandler _ AudioAvailable (hooks m)) as [s' |] eqn:Hh;
        [| discriminate].
      injection Hstep as <-. rewrite rerender_hooks by assumption.
      now apply (reachable_step (hooks m) s' ResetTimer).
    + destruct (runHandler _ AudioAvailable (hooks m)) as [s' |] eqn:Hh;
        [| discriminate].
      injection Hstep as <-. rewrite rerender_hooks by assumption.
      now apply (reachable_step (hooks m) s' (SwitchMode newMode)).
Qed.

Lemma mounted_cells_reachable_witness :
  mountedReachable startedMount /\ reachable (hooks startedMount).
Proof.
  split; [exact startedMount_reachable |].
  exact (mounted_cells_reachable startedMount startedMount_reachable).
Defined.

(** ** Countdowns, pauses and the controls *)

Lemma run_app (l1 l2 : list Action) (s : Hooks) :
  run (l1 ++ l2) s =
  match run l1 s with
  | Committed s' => run l2 s'
  | Crashed => Crashed
  end.
Proof.
  revert s. induction l1 as [| a l1 IH]; intros s; cbn; [reflexivity |].
  destruct (dispatch a s); [apply IH | reflexivity].
Qed.

Lemma run_ticks_idle (dev : AudioOutput) (k : nat) (s : Hooks) :
  isRunning s = false -> run (repeat (Tick dev) k) s = Committed s.
Proof.
  intros Hstop. induction k as [| k IH]; cbn; [reflexivity |].
  now rewrite intervalTick_idle.
Qed.

(** While more ticks remain than have fired, the clock is just behind. *)
Lemma run_ticks_counting (dev : AudioOutput) (k : nat) (s : Hooks) :
  isRunning s = true -> Z.of_nat k < timeLeft s ->
  run (repeat (Tick dev) k) s =
  Committed (mkHooks (timeLeft s - Z.of_nat k) true (mode s)
               (completedSessions s) (totalSessions s)).
Proof.
  revert s. induction k as [| k IH]; intros s Hrun Hlt.
  - cbn. destruct s as [t r m c n]. cbn in *. subst r.
    now rewrite Z.sub_0_r.
  - cbn [repeat run dispatch].
    rewrite intervalTick_decrements by (assumption || lia).
    cbn [applyUpdate]. rewrite Nat2Z.inj_succ in Hlt.
    rewrite IH;
      cbn [timeLeft isRunning mode completedSessions totalSessions];
      [| assumption | lia].
    do 2 f_equal. lia.
Qed.

(** X5. A running timer with [n >= 1] seconds on the clock shows [n - k]
    after [k < n] ticks with nothing else changed, and any [k >= n] ticks
    amount to the single completing tick of its last second: the interval
    ends at the [n]-th tick, not before, and later ticks add nothing. *)
Theorem countdown_ends_at_nth_tick (dev : AudioOutput) (s : Hooks) (k : nat) :
  isRunning s = true -> 1 <= timeLeft s ->
  (Z.of_nat k < timeLeft s ->
   run (repeat (Tick dev) k) s =
   Committed (mkHooks (timeLeft s - Z.of_nat k) true (mode s)
                (completedSessions s) (totalSessions s))) /\
  (timeLeft s <= Z.of_nat k ->
   run (repeat (Tick dev) k) s =
   intervalTick dev
     (mkHooks 1 true (mode s) (completedSessions s) (totalSessions s))).
Proof.
  intros Hrun Hpos. split; [now apply run_ticks_counting |].
  revert s Hrun Hpos. induction k as [| k IH]; intros s Hrun Hpos Hle.
  - cbn in Hle. lia.
  - cbn [repeat run dispatch].
    destruct (Z.eq_dec (timeLeft s) 1) as [Hone | Hmore].
    + assert (Hs : s = mkHooks 1 true (mode s) (completedSessions s)
                         (totalSessions s)).
      { destruct s as [t r m c n]. cbn in *. now subst. }
      rewrite <- Hs. destruct dev.
      * rewrite intervalTick_completes by (assumption || lia).
        apply run_ticks_idle. apply afterCompletion_fields.
      * now rewrite intervalTick_crashes by (assumption || lia).
    + rewrite intervalTick_decrements by (assumption || lia).
      cbn [applyUpdate]. rewrite Nat2Z.inj_succ in Hle.
      rewrite IH;
        cbn [timeLeft isRunning mode completedSessions totalSessions];
        (reflexivity || assumption || lia).
Qed.

Lemma countdown_ends_at_nth_tick_witness :
  isRunning midWork = true /\ 1 <= timeLeft midWork /\
  run (repeat (Tick AudioAvailable) 750) midWork
    = Committed (mkHooks 300 false shortBreak 3 3).
Proof.
  assert (Hrun : isRunning midWork = true) by reflexivity.
  assert (Hpos : 1 <= timeLeft midWork) by (cbn; lia).
  split; [exact Hrun | split; [exact Hpos |]].
  assert (Hle : timeLeft midWork <= Z.of_nat 750) by (cbn; lia).
  exact (proj2 (countdown_ends_at_nth_tick AudioAvailable midWork 750
                  Hrun Hpos) Hle).
Defined.

(** X6. Pausing a running timer, letting any number of seconds pass and
    resuming gives back exactly the render that was paused: a pause costs
    no time and touches nothing else. *)
Theorem pause_then_resume_restores (dev : AudioOutput) (s : Hooks) (k : nat) :
  isRunning s = true ->
  run (ToggleTimer :: repeat (Tick dev) k ++ [ToggleTimer]) s = Committed s.
Proof.
  intros Hrun. cbn [run dispatch]. rewrite runHandler_toggleTimer.
  rewrite run_app, run_ticks_idle by (cbn; now rewrite Hrun).
  cbn [run dispatch]. rewrite runHandler_toggleTimer. cbn.
  destruct s as [t r m c n]. cbn in *. now subst.
Qed.

Lemma pause_then_resume_restores_witness :
  isRunning midWork = true /\
  run (ToggleTimer :: repeat (Tick AudioAvailable) 90 ++ [ToggleTimer]) midWork
    = Committed midWork.
Proof.
  split; [reflexivity |].
  exact (pause_then_resume_restores AudioAvailable midWork 90 eq_refl).
Defined.

(** X7. Only the start/pause button starts the timer: a step that takes
    a stopped timer to a running one is a press of that button. *)
Theorem timer_starts_only_by_toggle (a : Action) (s s' : Hooks) :
  dispatch a s = Committed s' ->
  isRunning s = false -> isRunning s' = true -> a = ToggleTimer.
Proof.
  intros Hd Hstop Hstart. apply dispatch_transition in Hd.
  destruct Hd; cbn in Hstart; congruence.
Qed.

Lemma timer_starts_only_by_toggle_witness :
  dispatch ToggleTimer initialHooks
    = Committed (mkHooks 1500 true work 0 0) /\
  isRunning initialHooks = false /\
  isRunning (mkHooks 1500 true work 0 0) = true /\
  ToggleTimer = ToggleTimer.
Proof.
  split; [reflexivity | split; [reflexivity | split; [reflexivity |]]].
  exact (timer_starts_only_by_toggle ToggleTimer initialHooks
           (mkHooks 1500 true work 0 0) eq_refl eq_refl eq_refl).
Defined.

(** X9. Whatever changes the mode (a mode button or a completion) leaves
    the timer stopped with the new mode's full duration on the clock. *)
Theorem mode_change_resets_clock (a : Action) (s s' : Hooks) :
  dispatch a s = Committed s' ->
  mode s' <> mode s ->
  isRunning s' = false /\ timeLeft s' = modeDuration (mode s').
Proof.
  intros Hd Hmode. apply dispatch_transition in Hd.
  destruct Hd; cbn in *; try congruence; try (now split).
  destruct (afterCompletion_fields s) as (Ht & Hf & _). now split.
Qed.

Lemma mode_change_resets_clock_witness :
  dispatch (Tick AudioAvailable) lastSecondOfWork
    = Committed (mkHooks 300 false shortBreak 1 1) /\
  mode (mkHooks 300 false shortBreak 1 1) <> mode lastSecondOfWork /\
  isRunning (mkHooks 300 false shortBreak 1 1) = false /\
  timeLeft (mkHooks 300 false shortBreak 1 1)
    = modeDuration (mode (mkHooks 300 false shortBreak 1 1)).
Proof.
  assert (Hne : mode (mkHooks 300 false shortBreak 1 1)
                <> mode lastSecondOfWork) by discriminate.
  split; [reflexivity | split; [exact Hne |]].
  exact (mode_change_resets_clock (Tick AudioAvailable) lastSecondOfWork
           (mkHooks 300 false shortBreak 1 1) eq_refl Hne).
Defined.

(** Steps through button presses whose outcome is already known. *)
Ltac run_handlers :=
  repeat (first [ rewrite runHandler_resetTimer
                | rewrite runHandler_switchMode
                | rewrite runHandler_toggleTimer ];
          cbv iota beta).

(** X8. The controls absorb each other: a second reset changes nothing,
    a reset right after a mode switch changes nothing, and of two mode
    switches in a row only the last one counts. *)
Theorem controls_absorb (s : Hooks) (m1 m2 : TimerMode) :
  run [ResetTimer; ResetTimer] s = run [ResetTimer] s /\
  run [SwitchMode m1; ResetTimer] s = run [SwitchMode m1] s /\
  run [SwitchMode m1; SwitchMode m2] s = run [SwitchMode m2] s /\
  run [ResetTimer; SwitchMode m2] s = run [SwitchMode m2] s.
Proof.
  repeat split; cbn [run dispatch]; run_handlers; reflexivity.
Qed.

(** ** Counters and derived figures *)

Lemma step_count (a : Action) (s s' : Hooks) :
  dispatch a s = Committed s' ->
  completedSessions s <= completedSessions s' <= completedSessions s + 1.
Proof.
  intros Hd. apply dispatch_transition in Hd.
  destruct Hd; cbn [completedSessions]; try lia.
  unfold afterCompletion.
  destruct (mode s); cbv zeta;
    [destruct (Z.rem (completedSessions s + 1) 4 =? 0) | |];
    cbn [completedSessions]; lia.
Qed.

Lemma reachable_count_nonneg (s : Hooks) :
  reachable s -> 0 <= completedSessions s.
Proof.
  induction 1 as [| s s' a Hs IH Hd].
  - cbn. lia.
  - pose proof (step_count a s s' Hd). lia.
Qed.

(** X10. Along any run of button presses and ticks, from any render, the
    session count never goes down, and it goes up by at most one per
    step. *)
Theorem session_count_never_decreases (script : list Action) (s s' : Hooks) :
  run script s = Committed s' ->
  completedSessions s <= completedSessions s'
    <= completedSessions s + Z.of_nat (List.length script).
Proof.
  revert s. induction script as [| a script IH]; intros s Hrun.
  - cbn in Hrun. injection Hrun as <-. cbn. lia.
  - cbn [run] in Hrun.
    destruct (dispatch a s) as [s1 |] eqn:Hd; [| discriminate].
    pose proof (step_count a s s1 Hd).
    pose proof (IH s1 Hrun).
    cbn [List.length]. rewrite Nat2Z.inj_succ. lia.
Qed.

Lemma session_count_never_decreases_witness :
  run firstPomodoro initialHooks
    = Committed (mkHooks 300 false shortBreak 1 1) /\
  completedSessions initialHooks
    <= completedSessions (mkHooks 300 false shortBreak 1 1)
    <= completedSessions initialHooks
       + Z.of_nat (List.length firstPomodoro).
Proof.
  assert (Hrun : run firstPomodoro initialHooks
                 = Committed (mkHooks 300 false shortBreak 1 1))
    by (vm_compute; reflexivity).
  split; [exact Hrun |].
  exact (session_count_never_decreases firstPomodoro initialHooks _ Hrun).
Defined.

(** X11. In every reachable render the "Minutes Focused" figure is exactly
    25 times the number of completed sessions, so the floor in it never
    discards anything, and it is never negative. *)
Theorem minutesFocused_is_25_per_session (s : Hooks) :
  reachable s ->
  minutesFocused s = 25 * completedSessions s /\ 0 <= minutesFocused s.
Proof.
  intros Hs. pose proof (reachable_count_nonneg s Hs) as Hc.
  assert (Heq : minutesFocused s = 25 * completedSessions s).
  { unfold minutesFocused, WORK_DURATION.
    replace (completedSessions s * (25 * 60))
      with (25 * completedSessions s * 60) by ring.
    apply Z.div_mul. discriminate. }
  split; [exact Heq | lia].
Qed.

Lemma minutesFocused_is_25_per_session_witness :
  reachable initialHooks /\
  minutesFocused initialHooks = 25 * completedSessions initialHooks /\
  0 <= minutesFocused initialHooks.
Proof.
  split; [exact reachable_mount |].
  exact (minutesFocused_is_25_per_session initialHooks reachable_mount).
Defined.

(** [getProgress] picks the current mode's duration. *)
Lemma getProgress_over_duration (s : Hooks) :
  (getProgress s ==
   inject_Z (modeDuration (mode s) - timeLeft s)
   / inject_Z (modeDuration (mode s)) * inject_Z 100)%Q.
Proof.
  unfold getProgress. destruct (mode s); reflexivity.
Qed.

(** X12. In every reachable render [getProgress] is a percentage in
    [0, 100): the ring is never drawn past full or below empty, and for a
    ring of positive circumference the stroke offset stays within
    (0, circumference]. *)
Theorem getProgress_in_range (s : Hooks) :
  reachable s ->
  (0 <= getProgress s)%Q /\ (getProgress s < inject_Z 100)%Q /\
  (forall c : Q, (0 < c)%Q ->
     (0 < strokeDashoffset c s)%Q /\ (strokeDashoffset c s <= c)%Q).
Proof.
  intros Hs. pose proof (reachable_timeLeft_range s Hs) as Hrange.
  rewrite (getProgress_over_duration s).
  set (d := modeDuration (mode s)) in *.
  assert (Hd : (0 < inject_Z d)%Q).
  { rewrite <- (Zlt_Qlt 0). lia. }
  assert (Hlo : (0 <= inject_Z (d - timeLeft s) / inject_Z d
                      * inject_Z 100)%Q).
  { apply Qmult_le_0_compat; [| discriminate].
    apply Qle_shift_div_l; [exact Hd |].
    rewrite Qmult_0_l. rewrite <- (Zle_Qle 0). lia. }
  assert (Hhi : (inject_Z (d - timeLeft s) / inject_Z d * inject_Z 100
                 < inject_Z 100)%Q).
  { setoid_replace (inject_Z 100) with (1 * inject_Z 100)%Q at 2 by ring.
    apply Qmult_lt_compat_r; [reflexivity |].
    apply Qlt_shift_div_r; [exact Hd |].
    rewrite Qmult_1_l. rewrite <- Zlt_Qlt. lia. }
  split; [exact Hlo | split; [exact Hhi |]].
  intros c Hc. unfold strokeDashoffset.
  rewrite (getProgress_over_duration s). fold d.
  set (p := (inject_Z (d - timeLeft s) / inject_Z d * inject_Z 100)%Q) in *.
  assert (Hfrac : (0 <= p / inject_Z 100)%Q /\ (p / inject_Z 100 < 1)%Q).
  { split.
    - apply Qle_shift_div_l; [reflexivity |]. now rewrite Qmult_0_l.
    - apply Qlt_shift_div_r; [reflexivity |]. now rewrite Qmult_1_l. }
  destruct Hfrac as [Hf0 Hf1].
  set (f := (p / inject_Z 100)%Q) in *. split.
  - setoid_replace (c - f * c)%Q with ((1 - f) * c)%Q by ring.
    apply Qmult_lt_0_compat; [| exact Hc].
    now apply (proj1 (Qlt_minus_iff f 1)).
  - apply (proj2 (Qle_minus_iff (c - f * c) c)).
    setoid_replace (c + - (c - f * c))%Q with (f * c)%Q by ring.
    apply Qmult_le_0_compat; [exact Hf0 | now apply Qlt_le_weak].
Qed.

Lemma getProgress_in_range_witness :
  reachable initialHooks /\
  (0 <= getProgress initialHooks)%Q /\
  (getProgress initialHooks < inject_Z 100)%Q.
Proof.
  split; [exact reachable_mount |].
  destruct (getProgress_in_range initialHooks reachable_mount)
    as (Hlo & Hhi & _).
  now split.
Defined.

(** ** The countdown text *)

(** Numbers below one hundred are shown with exactly two digits. *)
Lemma padStart_two_digits (n : Z) :
  0 <= n < 100 ->
  padStart 2 "0" (toString n)
  = String (digit (n / 10)) (String (digit (n mod 10)) EmptyString).
Proof.
  intros Hn. apply String.eqb_eq.
  apply (forall_below
           (fun k => String.eqb
                       (padStart 2 "0" (toString k))
                       (String (digit (k / 10))
                          (String (digit (k mod 10)) EmptyString)))
           100); [vm_compute; reflexivity | exact Hn].
Qed.

Lemma digit_inj (a b : Z) :
  0 <= a <= 9 -> 0 <= b <= 9 -> digit a = digit b -> a = b.
Proof.
  intros Ha Hb Heq. unfold digit in Heq.
  apply (f_equal nat_of_ascii) in Heq.
  rewrite !nat_ascii_embedding in Heq by lia. lia.
Qed.

Lemma formatTime_shape (seconds : Z) :
  0 <= seconds < 6000 ->
  formatTime seconds
  = String (digit (seconds / 60 / 10))
      (String (digit (seconds / 60 mod 10))
         (String ":"
            (String (digit (seconds mod 60 / 10))
               (String (digit (seconds mod 60 mod 10)) EmptyString)))).
Proof.
  intros Hs. unfold formatTime. cbv zeta.
  rewrite Z.rem_mod_nonneg by lia.
  rewrite !padStart_two_digits.
  - reflexivity.
  - pose proof (Z.mod_pos_bound seconds 60). lia.
  - split; [apply Z.div_pos; lia | apply Z.div_lt_upper_bound; lia].
Qed.

(** X13. For every time from 0 up to 99:59 the countdown text is exactly
    five characters: the two digits of the whole minutes, a colon, and the
    two digits of the remaining seconds, zero-padded. *)
Theorem formatTime_is_MM_SS (seconds : Z) :
  0 <= seconds < 6000 ->
  formatTime seconds
  = String (digit (seconds / 60 / 10))
      (String (digit (seconds / 60 mod 10))
         (String ":"
            (String (digit (seconds mod 60 / 10))
               (String (digit (seconds mod 60 mod 10)) EmptyString)))) /\
  String.length (formatTime seconds) = 5%nat.
Proof.
  intros Hs. rewrite (formatTime_shape seconds Hs). now split.
Qed.

Lemma formatTime_is_MM_SS_witness :
  0 <= 1500 < 6000 /\ formatTime 1500 = "25:00"%string.
Proof.
  assert (H : 0 <= 1500 < 6000) by lia.
  split; [exact H |].
  rewrite (proj1 (formatTime_is_MM_SS 1500 H)). reflexivity.
Defined.

(** X14. Below 100 minutes, different remaining times are never shown as
    the same text. *)
Theorem formatTime_injective (a b : Z) :
  0 <= a < 6000 -> 0 <= b < 6000 ->
  formatTime a = formatTime b -> a = b.
Proof.
  intros Ha Hb Heq.
  rewrite (formatTime_shape a Ha), (formatTime_shape b Hb) in Heq.
  injection Heq as H1 H2 H3 H4.
  assert (Hma : 0 <= a / 60 < 100)
    by (split; [apply Z.div_pos; lia | apply Z.div_lt_upper_bound; lia]).
  assert (Hmb : 0 <= b / 60 < 100)
    by (split; [apply Z.div_pos; lia | apply Z.div_lt_upper_bound; lia]).
  pose proof (Z.mod_pos_bound a 60 ltac:(lia)) as Hsa.
  pose proof (Z.mod_pos_bound b 60 ltac:(lia)) as Hsb.
  assert (Htens : forall n, 0 <= n < 100 -> 0 <= n / 10 <= 9).
  { intros n Hn. split; [apply Z.div_pos; lia |].
    apply Z.lt_succ_r. apply Z.div_lt_upper_bound; lia. }
  assert (Hunits : forall n, 0 <= n mod 10 <= 9).
  { intros n. pose proof (Z.mod_pos_bound n 10). lia. }
  apply digit_inj in H1; [| apply Htens; lia | apply Htens; lia].
  apply digit_inj in H2; [| apply Hunits | apply Hunits].
  apply digit_inj in H3; [| apply Htens; lia | apply Htens; lia].
  apply digit_inj in H4; [| apply Hunits | apply Hunits].
  assert (Hm : a / 60 = b / 60).
  { rewrite (Z.div_mod (a / 60) 10), (Z.div_mod (b / 60) 10) by lia.
    now rewrite H1, H2. }
  assert (Hsec : a mod 60 = b mod 60).
  { rewrite (Z.div_mod (a mod 60) 10), (Z.div_mod (b mod 60) 10) by lia.
    now rewrite H3, H4. }
  rewrite (Z.div_mod a 60), (Z.div_mod b 60) by lia.
  now rewrite Hm, Hsec.
Qed.

Lemma formatTime_injective_witness :
  0 <= 1500 < 6000 /\ 0 <= 1500 < 6000 /\
  formatTime 1500 = formatTime 1500 /\ 1500 = 1500.
Proof.
  assert (H : 0 <= 1500 < 6000) by lia.
  split; [exact H | split; [exact H | split; [reflexivity |]]].
  exact (formatTime_injective 1500 1500 H H eq_refl).
Defined.

(** X15. In every reachable render the countdown shows a five-character
    MM:SS text, for a time of at least one second and at most the 25
    minutes of a Work interval. *)
Theorem reachable_countdown_text (s : Hooks) :
  reachable s ->
  String.length (formatTime (timeLeft s)) = 5%nat /\
  1 <= timeLeft s <= 1500 /\
  formatTime (timeLeft s)
  = String (digit (timeLeft s / 60 / 10))
      (String (digit (timeLeft s / 60 mod 10))
         (String ":"
            (String (digit (timeLeft s mod 60 / 10))
               (String (digit (timeLeft s mod 60 mod 10)) EmptyString)))).
Proof.
  intros Hs. pose proof (reachable_timeLeft_range s Hs) as Hrange.
  assert (Hmax : modeDuration (mode s) <= 1500)
    by (destruct (mode s); cbn; lia).
  assert (Hb : 0 <= timeLeft s < 6000) by lia.
  rewrite (formatTime_shape _ Hb). repeat split; lia.
Qed.

Lemma reachable_countdown_text_witness :
  reachable initialHooks /\
  String.length (formatTime (timeLeft initialHooks)) = 5%nat.
Proof.
  split; [exact reachable_mount |].
  exact (proj1 (reachable_countdown_text initialHooks reachable_mount)).
Defined.

(** ** Mode-dependent presentation *)

(** X16. For every mode the progress circle's stroke names one of the
    gradients defined next to it, and the colour class of the countdown,
    found by searching the mode's colour string for "red" and "green", is
    the red, green or blue one for Work, Short Break and Long Break. *)
Theorem mode_presentation_consistent (s : Hooks) :
  In (progressStrokeId s) gradientIds /\
  timeTextClass s =
    match mode s with
    | work => "text-red-400"%string
    | shortBreak => "text-green-400"%string
    | longBreak => "text-blue-400"%string
    end /\
  (forall s2 : Hooks,
     getModeLabel s = getModeLabel s2 \/ getModeColor s = getModeColor s2 ->
     mode s = mode s2).
Proof.
  unfold progressStrokeId, timeTextClass, getModeLabel, getModeColor,
    gradientIds.
  split; [| split].
  - destruct (mode s); cbn; auto.
  - destruct (mode s); reflexivity.
  - intros s2. destruct (mode s), (mode s2); intros [H | H];
      (reflexivity || discriminate H).
Qed.
